(** * Election and reserve-duty analysis: a model of [main_script.py]

    The script is one linear pandas pipeline.  This development embeds the
    part of it that runs from the merged table [data] (line 41) to the
    normalised table [results] (line 123), and proves properties of it.

    Modelling conventions.
    - A float64 cell is a finite number or NaN.  Finite numbers are exact
      rationals ([Q], compared with [==]); rounding of binary floating point
      is not modelled.  NaN is the absent value: a row is a finite map
      from column names to numbers, and a column name that the map does not
      bind holds NaN in that row.
    - A [DataFrame] is its column index (a list of names) together with its
      rows in order, each row carrying its index label.
    - A column expression whose operands all live in one frame (same index)
      is evaluated row by row.
    - A failing label lookup raises [KeyError]; the pipeline is written in
      the error monad [result]. *)

From Stdlib Require Import QArith Qround Qminmax Lqa.
From stdpp Require Import gmap strings list sorting.

#[global] Set Warnings "-clear-no-such-hyp".
Open Scope Q_scope.

(** ** Numbers and cells *)

Abbreviation cell := (option Q).

#[global] Instance Qlt_decision (x y : Q) : Decision (x < y).
Proof.
  destruct (Qlt_le_dec x y) as [H|H]; [left; exact H | right].
  apply Qle_not_lt, H.
Defined.

#[global] Instance Qle_decision (x y : Q) : Decision (x <= y).
Proof.
  destruct (Qlt_le_dec y x) as [H|H]; [right | left; exact H].
  apply Qlt_not_le, H.
Defined.

#[global] Instance Qeq_decision (x y : Q) : Decision (x == y) := Qeq_dec x y.

(** [series * scalar] *)
Definition cmul_scalar (a : cell) (s : Q) : cell := (fun x => x * s) <$> a.

(** [series * series]; NaN propagates. *)
Definition cmul (a b : cell) : cell :=
  match a, b with
  | Some x, Some y => Some (x * y)
  | _, _ => None
  end.

Definition cadd (a b : cell) : cell :=
  match a, b with
  | Some x, Some y => Some (x + y)
  | _, _ => None
  end.

(** [scalar - series] *)
Definition crsub (s : Q) (a : cell) : cell := (fun x => s - x) <$> a.

(** [series / series].  float64 division by zero yields an infinity or NaN;
    the model has no infinities and gives the absent value for every
    non-finite quotient. *)
Definition cdiv (a b : cell) : cell :=
  match a, b with
  | Some x, Some y => if decide (y == 0) then None else Some (x / y)
  | _, _ => None
  end.

(** ** Errors *)

Inductive key : Type :=
  | Column (c : string)
  | Label (q : Q).

Inductive result (A : Type) : Type :=
  | Ok (a : A)
  | KeyError (k : key).
Arguments Ok {A} a.
Arguments KeyError {A} k.

#[global] Instance result_ret : MRet result := fun A a => Ok a.
#[global] Instance result_bind : MBind result := fun A B f m =>
  match m with
  | Ok a => f a
  | KeyError k => KeyError k
  end.

(** ** Data frames *)

Record DataFrame (L : Type) : Type := mkDF {
  columns : list string;
  rows : list (L * gmap string Q)
}.
Arguments mkDF {L} columns rows.
Arguments columns {L} d.
Arguments rows {L} d.

Section frames.
Context {L : Type}.
Implicit Types (df : DataFrame L) (r : gmap string Q) (c : string).

Definition index df : list L := fst <$> rows df.

(** [df[cols]] raises [KeyError] on the first name that is not a column. *)
Fixpoint require (cols : list string) df : result unit :=
  match cols with
  | [] => Ok ()
  | c :: cols' =>
      if decide (c ∈ columns df) then require cols' df
      else KeyError (Column c)
  end.

Definition set_cell c (v : cell) r : gmap string Q :=
  partial_alter (fun _ => v) c r.

Definition add_column c (cols : list string) : list string :=
  if decide (c ∈ cols) then cols else cols ++ [c].

(** [df[c] = expr], where [expr] is computed from the row itself. *)
Definition assign c (f : L -> gmap string Q -> cell) df : DataFrame L :=
  mkDF (add_column c (columns df))
       ((fun p => (p.1, set_cell c (f p.1 p.2) p.2)) <$> rows df).

(** [df[df[cols] > 0]]: a boolean frame used as a key is
    [DataFrame.where].  The mask is aligned to [df]; a column that the
    mask does not have is filled with False, so its cells become NaN just
    as the cells that fail the comparison do. *)
Definition where_gt0 (cols : list string) df : DataFrame L :=
  mkDF (columns df)
       ((fun p => (p.1, filter (fun cv => cv.1 ∈ cols ∧ 0 < cv.2) p.2))
          <$> rows df).

(** [df.dropna(subset=cols)] *)
Definition dropna_subset (cols : list string) df : DataFrame L :=
  mkDF (columns df)
       (filter (fun p => Forall (fun c => is_Some (p.2 !! c)) cols) (rows df)).

(** [df.dropna(axis=1)]: a column goes when any of its cells is NaN. *)
Definition column_complete df c : Prop :=
  Forall (fun p => is_Some (p.2 !! c)) (rows df).

#[global] Instance column_complete_dec df c : Decision (column_complete df c).
Proof. unfold column_complete. apply _. Defined.

Definition dropna_axis1 df : DataFrame L :=
  let kept := filter (column_complete df) (columns df) in
  mkDF kept ((fun p => (p.1, filter (fun cv => cv.1 ∈ kept) p.2)) <$> rows df).

(** [df.loc[~df.index.duplicated(keep='first')]] *)
Fixpoint drop_duplicated `{EqDecision L} (seen : list L)
    (rs : list (L * gmap string Q)) : list (L * gmap string Q) :=
  match rs with
  | [] => []
  | p :: rs' =>
      if decide (p.1 ∈ seen) then drop_duplicated seen rs'
      else p :: drop_duplicated (p.1 :: seen) rs'
  end.
End frames.

(** [df[cols].sum(axis=1)]: NaN cells are skipped, an all-NaN row sums to 0. *)
Definition row_sum (cols : list string) (r : gmap string Q) : Q :=
  foldl (fun acc c => acc + default 0 (r !! c)) 0 cols.

Definition sum_axis1 (cols : list string) (r : gmap string Q) : cell :=
  Some (row_sum cols r).

(** ** Bloc aggregator (lines 44-69) *)

Definition coalition : list (string * string) :=
  [ ("מחל", "The Union");
    ("שס", "Shas");
    ("ג", "United Torah Judaism");
    ("ט", "Religious Zionism and Jewish Power");
    ("ב", "Bait Yehudi");
    ("saar", "New Hope") ]%string.

Definition opposition : list (string * string) :=
  [ ("פה", "There Is Future");
    ("כן", "The Kingdom Camp");
    ("ל", "Israel Is Our Home");
    ("עם", "United Arab List");
    ("ום", "Hadash-Ta'al");
    ("אמת", "The Work");
    ("מרצ", "Meretz") ]%string.

Definition keys (d : list (string * string)) : list string := fst <$> d.

Definition SAAR_RATIO_FROM_GANTZ : Q := 0.00.

(** Lines 64-69, with the split ratio as a parameter. *)
Definition bloc_totals (ratio : Q) (data : DataFrame string)
    : result (DataFrame string) :=
  _ ← require ["כן"%string] data;
  let data := assign "saar" (fun _ r => cmul_scalar (r !! "כן"%string) ratio) data in
  _ ← require ["כן"%string] data;
  let data := assign "כן" (fun _ r => cmul_scalar (r !! "כן"%string) (1 - ratio)) data in
  _ ← require (keys coalition) data;
  let data := assign "coal" (fun _ r => sum_axis1 (keys coalition) r) data in
  _ ← require (keys opposition) data;
  let data := assign "opp" (fun _ r => sum_axis1 (keys opposition) r) data in
  Ok data.

(** Line 72. *)
Definition deduplicate (data : DataFrame string) : DataFrame string :=
  mkDF (columns data) (drop_duplicated [] (rows data)).

(** ** Cleaner (lines 75-77) *)

Definition checked : list string := ["coal"; "opp"; "reserve_days"]%string.

Definition clean (data : DataFrame string) : result (DataFrame string) :=
  _ ← require checked data;
  let data_analysis := where_gt0 checked data in
  _ ← require checked data_analysis;
  let data_analysis := dropna_subset checked data_analysis in
  Ok (dropna_axis1 data_analysis).


(** ** Ratio calculator (lines 81-92) *)

(** The value of column [c] of [df] at index label [l]: what aligning
    [df[c]] to another frame's index reads (the first row with that label;
    NaN when there is none). *)
Definition at_label (l : string) (c : string) (df : DataFrame string) : cell :=
  match list_find (fun p => p.1 = l) (rows df) with
  | Some (_, p) => p.2 !! c
  | None => None
  end.

Definition ratios (data data_analysis : DataFrame string)
    : result (DataFrame string) :=
  _ ← require ["כשרים"%string] data;
  let da := assign "kosher" (fun l _ => at_label l "כשרים" data) data_analysis in
  _ ← require ["reserve_days"; "coal"]%string da;
  let da := assign "coal_reserves_ratio"
              (fun _ r => cdiv (r !! "reserve_days"%string) (r !! "coal"%string)) da in
  _ ← require ["reserve_days"; "opp"]%string da;
  let da := assign "opp_reserves_ratio"
              (fun _ r => cdiv (r !! "reserve_days"%string) (r !! "opp"%string)) da in
  _ ← require ["coal"; "coal"; "opp"]%string da;
  let da := assign "coal_ratio"
              (fun _ r => cdiv (r !! "coal"%string)
                               (cadd (r !! "coal"%string) (r !! "opp"%string))) da in
  _ ← require ["coal_ratio"%string] da;
  let da := assign "opp_ratio" (fun _ r => crsub 1 (r !! "coal_ratio"%string)) da in
  _ ← require ["coal_ratio"; "reserve_days"]%string da;
  let da := assign "coal_reserves_times_ratio"
              (fun _ r => cmul (r !! "coal_ratio"%string) (r !! "reserve_days"%string)) da in
  _ ← require ["opp_ratio"; "reserve_days"]%string da;
  let da := assign "opp_reserves_times_ratio"
              (fun _ r => cmul (r !! "opp_ratio"%string) (r !! "reserve_days"%string)) da in
  Ok da.

(** ** Binner (lines 106-110) *)

(** [np.arange(start, stop, step)]: [ceil((stop - start) / step)] values
    [start + i * step]. *)
Definition arange (start stop step : Q) : list Q :=
  (fun i : nat => start + inject_Z (Z.of_nat i) * step)
    <$> seq 0 (Z.to_nat (Qceiling ((stop - start) / step))).

(** Round half to even. *)
Definition rint (q : Q) : Z :=
  let f := Qfloor q in
  let d := q - inject_Z f in
  if decide (d < 1 # 2) then f
  else if decide (1 # 2 < d) then (f + 1)%Z
  else if Z.even f then f else (f + 1)%Z.

(** [np.round(q, 2)] *)
Definition np_round2 (q : Q) : Q := inject_Z (rint (q * 100)) / 100.

Definition bins : list Q := arange 0 1.05 0.05.
Definition labels : list Q := np_round2 <$> arange 0 1 0.05.

(** [edges.searchsorted(x, side='left')] on ascending [edges]: the first
    position whose edge is not below [x]. *)
Fixpoint searchsorted_left (edges : list Q) (x : Q) : nat :=
  match edges with
  | [] => 0%nat
  | e :: edges' => if decide (e < x) then S (searchsorted_left edges' x) else 0%nat
  end.

(** [pd.cut(x, bins=edges, labels=labs)] with the defaults [right=True],
    [include_lowest=False], on one cell. *)
Definition cut (edges labs : list Q) (x : cell) : cell :=
  match x with
  | None => None
  | Some q =>
      let ids := searchsorted_left edges q in
      if decide (ids = length edges ∨ ids = 0%nat) then None
      else labs !! (ids - 1)%nat
  end.

(** ** Cumulative sums, groups and normalisation (lines 112-123) *)

Section sorting_and_sums.
Context {L : Type}.

(** Ascending order on the sort key, NaN last. *)
Definition key_le (c : string) (p1 p2 : L * gmap string Q) : Prop :=
  match p1.2 !! c, p2.2 !! c with
  | Some x, Some y => x <= y
  | None, Some _ => False
  | _, None => True
  end.

#[global] Instance key_le_dec c : RelDecision (key_le c).
Proof.
  intros p1 p2. unfold key_le.
  destruct (p1.2 !! c), (p2.2 !! c); apply _.
Defined.

(** [df.sort_values(by=c)] *)
Definition sort_values (c : string) (df : DataFrame L) : DataFrame L :=
  mkDF (columns df) (merge_sort (key_le c) (rows df)).

(** The rows of [df[dst] = df[src].cumsum()]: NaN cells are skipped, they
    stay NaN and do not change the running sum. *)
Fixpoint cumsum_from (acc : Q) (src dst : string)
    (rs : list (L * gmap string Q)) : list (L * gmap string Q) :=
  match rs with
  | [] => []
  | p :: rs' =>
      match p.2 !! src with
      | Some v => (p.1, <[dst := acc + v]> p.2)
                    :: cumsum_from (acc + v) src dst rs'
      | None => (p.1, delete dst p.2) :: cumsum_from acc src dst rs'
      end
  end.

Definition cumsum (src dst : string) (df : DataFrame L) : DataFrame L :=
  mkDF (add_column dst (columns df)) (cumsum_from 0 src dst (rows df)).

(** Membership of a row in the group of category [cat]. *)
Definition in_group (by_ : string) (cat : Q) (p : L * gmap string Q) : Prop :=
  match p.2 !! by_ with
  | Some q => q == cat
  | None => False
  end.

#[global] Instance in_group_dec by_ cat p : Decision (in_group by_ cat p).
Proof. unfold in_group. destruct (p.2 !! by_); apply _. Defined.

(** Maximum that skips NaN. *)
Definition cmax (a b : cell) : cell :=
  match a, b with
  | Some x, Some y => Some (Qmax x y)
  | Some x, None => Some x
  | None, _ => b
  end.

(** [df[[val, by]].groupby(by, observed=False).agg("max")]: one entry per
    category, observed or not; a category without rows holds NaN. *)
Definition groupby_max (by_ val : string) (cats : list Q) (df : DataFrame L)
    : list (Q * cell) :=
  (fun cat =>
     (cat, foldl cmax None
             ((fun p => p.2 !! val) <$> filter (in_group by_ cat) (rows df))))
    <$> cats.
End sorting_and_sums.

(** The entry of a grouped series at a label. *)
Definition agg_at (l : Q) (agg : list (Q * cell)) : cell :=
  match list_find (fun p => p.1 == l) agg with
  | Some (_, p) => p.2
  | None => None
  end.

(** [results[c] = agg]: a frame without rows takes the index of the value;
    the value is then aligned to the frame's index. *)
Definition set_from_groups (c : string) (agg : list (Q * cell))
    (results : DataFrame Q) : DataFrame Q :=
  let results :=
    match rows results with
    | [] => mkDF (columns results) ((fun p => (p.1, ∅)) <$> agg)
    | _ => results
    end in
  assign c (fun l _ => agg_at l agg) results.

(** [results.loc[l, c]] *)
Definition loc (l : Q) (c : string) (results : DataFrame Q) : result cell :=
  match list_find (fun p => p.1 == l) (rows results) with
  | None => KeyError (Label l)
  | Some (_, p) =>
      if decide (c ∈ columns results) then Ok (p.2 !! c)
      else KeyError (Column c)
  end.

(** One turn of the loop over the two blocs. *)
Definition bloc_step (party : string)
    (st : DataFrame string * DataFrame Q)
    : result (DataFrame string * DataFrame Q) :=
  let data_analysis := st.1 in
  let results := st.2 in
  _ ← require [party +:+ "_ratio"] data_analysis;
  let data_analysis :=
    assign (party +:+ "_cut")
      (fun _ r => cut bins labels (r !! (party +:+ "_ratio"))) data_analysis in
  _ ← require [party +:+ "_cut"] data_analysis;
  let data_analysis := sort_values (party +:+ "_cut") data_analysis in
  _ ← require ["reserve_days"%string] data_analysis;
  let data_analysis :=
    cumsum "reserve_days" (party +:+ "_reserves") data_analysis in
  _ ← require ["kosher"%string] data_analysis;
  let data_analysis :=
    cumsum "kosher" (party +:+ "_votes_cumsum") data_analysis in
  _ ← require [party +:+ "_reserves"; party +:+ "_cut"] data_analysis;
  let results :=
    set_from_groups party
      (groupby_max (party +:+ "_cut") (party +:+ "_reserves") labels data_analysis)
      results in
  d ← loc 0.95 party results;
  _ ← require [party] results;
  let results := assign party (fun _ r => cdiv (r !! party) d) results in
  Ok (data_analysis, results).

Definition blocs : list string := ["coal"; "opp"]%string.

Definition binning (data_analysis : DataFrame string)
    : result (DataFrame string * DataFrame Q) :=
  foldl (fun acc party => st ← acc; bloc_step party st)
        (Ok (data_analysis, mkDF [] [])) blocs.

(** ** The pipeline *)

(** Lines 64-92: the analysis table. *)
Definition analysis (ratio : Q) (data : DataFrame string)
    : result (DataFrame string) :=
  data ← bloc_totals ratio data;
  let data := deduplicate data in
  data_analysis ← clean data;
  ratios data data_analysis.

(** Lines 64-123, with the split ratio as a parameter. *)
Definition pipeline (ratio : Q) (data : DataFrame string)
    : result (DataFrame string * DataFrame Q) :=
  data_analysis ← analysis ratio data;
  binning data_analysis.

Definition main_script (data : DataFrame string)
    : result (DataFrame string * DataFrame Q) :=
  pipeline SAAR_RATIO_FROM_GANTZ data.

(** * Derived notions and example tables *)

(** What lines 64-69 do to one row. *)
Definition totals_row (ratio : Q) (r : gmap string Q) : gmap string Q :=
  let r1 := set_cell "saar" (cmul_scalar (r !! "כן"%string) ratio) r in
  let r2 := set_cell "כן" (cmul_scalar (r1 !! "כן"%string) (1 - ratio)) r1 in
  let r3 := set_cell "coal" (sum_axis1 (keys coalition) r2) r2 in
  set_cell "opp" (sum_axis1 (keys opposition) r3) r3.


Definition party_columns : list string :=
  ["מחל"; "שס"; "ג"; "ט"; "ב"; "פה"; "כן"; "ל"; "עם"; "ום"; "אמת"; "מרצ"]%string.

Definition input_columns : list string :=
  party_columns ++ ["כשרים"; "reserve_days"]%string.

(** One locality whose only votes are 100 for the party that is split. *)
Definition split_example : DataFrame string :=
  mkDF input_columns
    [ ("A"%string,
       list_to_map [("כן"%string, 100); ("כשרים"%string, 100);
                    ("reserve_days"%string, 10)]) ].

(** The cell of column [c] is present and strictly positive. *)
Definition positive (c : string) (r : gmap string Q) : Prop :=
  exists v, r !! c = Some v /\ 0 < v.

(** The three checked cells are present and strictly positive. *)
Definition passes (r : gmap string Q) : Prop :=
  forall c, c ∈ checked -> positive c r.

Definition mask_row (cols : list string) (r : gmap string Q) : gmap string Q :=
  filter (fun cv => cv.1 ∈ cols ∧ 0 < cv.2) r.

(** The two localities of the specification's scenario (A and B), one
    without reserve data whose population is missing too (C), one without
    opposition votes (D), and a later duplicate of A. *)
Definition scenario : DataFrame string :=
  mkDF ["coal"; "opp"; "reserve_days"; "pop"; "כשרים"]%string
    [ ("A"%string, list_to_map [("coal"%string, 80); ("opp"%string, 20);
         ("reserve_days"%string, 100); ("pop"%string, 1000); ("כשרים"%string, 100)]);
      ("B"%string, list_to_map [("coal"%string, 20); ("opp"%string, 80);
         ("reserve_days"%string, 50); ("pop"%string, 2000); ("כשרים"%string, 100)]);
      ("C"%string, list_to_map [("coal"%string, 5); ("opp"%string, 5);
         ("כשרים"%string, 10)]);
      ("D"%string, list_to_map [("coal"%string, 7); ("opp"%string, 0);
         ("reserve_days"%string, 3); ("pop"%string, 30); ("כשרים"%string, 7)]);
      ("A"%string, list_to_map [("coal"%string, 0); ("opp"%string, 1);
         ("reserve_days"%string, 1); ("pop"%string, 1); ("כשרים"%string, 1)]) ].

(** What lines 81-92 do to one row whose valid-vote cell is [k]. *)
Definition ratios_row (k : cell) (r : gmap string Q) : gmap string Q :=
  let r := set_cell "kosher" k r in
  let r := set_cell "coal_reserves_ratio"
             (cdiv (r !! "reserve_days"%string) (r !! "coal"%string)) r in
  let r := set_cell "opp_reserves_ratio"
             (cdiv (r !! "reserve_days"%string) (r !! "opp"%string)) r in
  let r := set_cell "coal_ratio"
             (cdiv (r !! "coal"%string)
                   (cadd (r !! "coal"%string) (r !! "opp"%string))) r in
  let r := set_cell "opp_ratio" (crsub 1 (r !! "coal_ratio"%string)) r in
  let r := set_cell "coal_reserves_times_ratio"
             (cmul (r !! "coal_ratio"%string) (r !! "reserve_days"%string)) r in
  set_cell "opp_reserves_times_ratio"
    (cmul (r !! "opp_ratio"%string) (r !! "reserve_days"%string)) r.

(** Five localities: A votes 97% coalition, C 98% opposition, D is split
    evenly, B has no reserve data, and the last row repeats label A. *)
Definition localities : DataFrame string :=
  mkDF input_columns
    [ ("A"%string, list_to_map [("מחל"%string, 97); ("כן"%string, 3);
         ("כשרים"%string, 101); ("reserve_days"%string, 10)]);
      ("B"%string, list_to_map [("מחל"%string, 20); ("כן"%string, 30);
         ("כשרים"%string, 50)]);
      ("C"%string, list_to_map [("מחל"%string, 2); ("כן"%string, 98);
         ("כשרים"%string, 100); ("reserve_days"%string, 5)]);
      ("D"%string, list_to_map [("מחל"%string, 50); ("כן"%string, 50);
         ("כשרים"%string, 100); ("reserve_days"%string, 5)]);
      ("A"%string, list_to_map [("מחל"%string, 1); ("כן"%string, 1);
         ("כשרים"%string, 2); ("reserve_days"%string, 1)]) ].




(** [p'] is [p] up to the columns [cs]. *)
Definition extends {L} (cs : list string) (p p' : L * gmap string Q) : Prop :=
  p'.1 = p.1 /\ forall c, c ∉ cs -> p'.2 !! c = p.2 !! c.

(** Every element of [l'] comes from one of [l] and every element of [l]
    has one in [l'], along [R]. *)
Definition related {A} (R : A -> A -> Prop) (l l' : list A) : Prop :=
  (forall x', x' ∈ l' -> exists x, x ∈ l /\ R x x') /\
  (forall x, x ∈ l -> exists x', x' ∈ l' /\ R x x').

(** The rows of the analysis table after lines 106-115, for the columns
    [pratio], [pc], [pr] and [pv] of one bloc. *)
Definition step_rows (pratio pc pr pv : string)
    (rs : list (string * gmap string Q)) : list (string * gmap string Q) :=
  cumsum_from 0 "kosher" pv
    (cumsum_from 0 "reserve_days" pr
       (merge_sort (key_le pc)
          ((fun p => (p.1, set_cell pc (cut bins labels (p.2 !! pratio)) p.2))
             <$> rs))).

(** The row [p'] after the turn against the row [p] before it. *)
Definition step_rel (pratio pc pr pv : string)
    (p p' : string * gmap string Q) : Prop :=
  extends [pc; pr; pv] p p' /\ p'.2 !! pc = cut bins labels (p.2 !! pratio).

(** The maximum of column [pr] over the rows whose bin is [cat]. *)
Definition group_max {L} (pc pr : string) (rs : list (L * gmap string Q))
    (cat : Q) : cell :=
  foldl cmax None ((fun p => p.2 !! pr) <$> filter (in_group pc cat) rs).

(** The result table is still empty or already indexed by the bin labels. *)
Definition results_ready (results : DataFrame Q) : Prop :=
  rows results = [] \/ index results = labels.

(** Two localities, neither of which reaches a 95% share for a bloc. *)
Definition two_localities : DataFrame string :=
  mkDF input_columns
    [ ("A"%string, list_to_map [("מחל"%string, 80); ("פה"%string, 20);
         ("כשרים"%string, 100); ("reserve_days"%string, 100)]);
      ("B"%string, list_to_map [("מחל"%string, 20); ("פה"%string, 80);
         ("כשרים"%string, 100); ("reserve_days"%string, 50)]) ].

(** The value of a run that did not fail. *)
Definition is_ok {A} (m : result A) : bool :=
  match m with Ok _ => true | KeyError _ => false end.

Definition unwrap {A} (d : A) (m : result A) : A :=
  match m with Ok a => a | KeyError _ => d end.

Definition no_frame {L} : DataFrame L := mkDF [] [].

Definition two_localities_analysis : DataFrame string :=
  unwrap no_frame (analysis SAAR_RATIO_FROM_GANTZ two_localities).

Definition localities_run : DataFrame string * DataFrame Q :=
  unwrap (no_frame, no_frame) (pipeline SAAR_RATIO_FROM_GANTZ localities).

Definition two_localities_run : DataFrame string * DataFrame Q :=
  unwrap (no_frame, no_frame) (main_script two_localities).

(** * Properties *)

(** ** The error monad and column lookups *)

Lemma bind_Ok {A B} (m : result A) (f : A -> result B) (b : B) :
  m ≫= f = Ok b -> exists a, m = Ok a /\ f a = Ok b.
Proof. destruct m as [a|k]; [exists a; auto | discriminate]. Qed.

Ltac inv_bind H :=
  let a := fresh "u" in
  let Hm := fresh "Hreq" in
  apply bind_Ok in H; destruct H as (a & Hm & H).

Section frame_facts.
Context {L : Type}.
Implicit Types (df : DataFrame L) (r : gmap string Q) (c : string).

Lemma require_Ok cols df u :
  require cols df = Ok u <-> Forall (fun c => c ∈ columns df) cols.
Proof.
  destruct u. induction cols as [|c cols IH]; simpl.
  - split; auto.
  - case_decide; rewrite Forall_cons.
    + rewrite IH. tauto.
    + split; [discriminate | tauto].
Qed.

Lemma add_column_here c cols : c ∈ add_column c cols.
Proof.
  unfold add_column. case_decide; [done|].
  apply elem_of_app. right. left.
Qed.

Lemma add_column_mono c c' cols : c ∈ cols -> c ∈ add_column c' cols.
Proof.
  unfold add_column. case_decide; [done|].
  intros. apply elem_of_app. by left.
Qed.

Lemma lookup_set_cell c v r c' :
  set_cell c v r !! c' = if decide (c = c') then v else r !! c'.
Proof.
  unfold set_cell. case_decide as Hc.
  - subst. apply lookup_partial_alter_eq.
  - by apply lookup_partial_alter_ne.
Qed.

Lemma dropna_axis1_rows_nil df : rows (dropna_axis1 df) = [] <-> rows df = [].
Proof.
  unfold dropna_axis1. simpl. split; [apply fmap_nil_inv | by intros ->].
Qed.

Lemma dropna_axis1_columns df c :
  c ∈ columns (dropna_axis1 df) <-> column_complete df c /\ c ∈ columns df.
Proof. unfold dropna_axis1. simpl. apply list_elem_of_filter. Qed.

Lemma dropna_axis1_empty df :
  rows df = [] -> columns (dropna_axis1 df) = columns df.
Proof.
  intros E. unfold dropna_axis1. simpl.
  induction (columns df) as [|c cs IH]; [done|].
  rewrite filter_cons_True; [by f_equal|].
  unfold column_complete. rewrite E. constructor.
Qed.

Lemma index_assign c f df : index (assign c f df) = index df.
Proof.
  unfold index, assign. simpl. rewrite <- list_fmap_compose.
  by apply list_fmap_ext.
Qed.
End frame_facts.

(** ** Bloc aggregator *)

Ltac simpl_cells :=
  repeat (rewrite lookup_set_cell;
          destruct (decide (_ = _)) as [?|?]; [try discriminate | try congruence]).

Lemma bloc_totals_rows ratio data d :
  bloc_totals ratio data = Ok d ->
  rows d = (fun p => (p.1, totals_row ratio p.2)) <$> rows data.
Proof.
  unfold bloc_totals. intros H.
  do 4 inv_bind H. injection H as <-. simpl.
  rewrite <- !list_fmap_compose. by apply list_fmap_ext.
Qed.

Lemma bloc_totals_columns ratio data d c :
  bloc_totals ratio data = Ok d -> c ∈ columns data -> c ∈ columns d.
Proof.
  unfold bloc_totals. intros H Hc.
  do 4 inv_bind H. injection H as <-. simpl.
  by do 4 apply add_column_mono.
Qed.

Lemma totals_row_saar ratio r :
  totals_row ratio r !! "saar"%string = cmul_scalar (r !! "כן"%string) ratio.
Proof. unfold totals_row. by simpl_cells. Qed.


Lemma totals_row_coal ratio r :
  totals_row ratio r !! "coal"%string =
    Some (row_sum ["מחל"; "שס"; "ג"; "ט"; "ב"]%string r
          + default 0 (cmul_scalar (r !! "כן"%string) ratio)).
Proof.
  unfold totals_row. simpl_cells.
  unfold sum_axis1, row_sum. simpl. by simpl_cells.
Qed.

Lemma totals_row_opp ratio r :
  exists t, totals_row ratio r !! "opp"%string = Some t /\
    t == row_sum ["פה"; "ל"; "עם"; "ום"; "אמת"; "מרצ"]%string r
         + default 0 (cmul_scalar (r !! "כן"%string) (1 - ratio)).
Proof.
  unfold totals_row. simpl_cells. eexists; split; [reflexivity|].
  unfold row_sum. simpl. simpl_cells. ring.
Qed.




(** C4, as the code has it: the synthetic column is a member of the
    coalition mapping.  In every row the coalition total is the votes of the
    five coalition parties plus the votes moved into the synthetic column,
    and the opposition total is the votes of the six other opposition
    parties plus what the split leaves in the designated party's column. *)
Theorem synthetic_column_in_coalition (ratio : Q) (data d : DataFrame string) :
  bloc_totals ratio data = Ok d ->
  Forall2 (fun p p' =>
      p'.1 = p.1 /\
      p'.2 !! "saar"%string = cmul_scalar (p.2 !! "כן"%string) ratio /\
      exists tc to,
        p'.2 !! "coal"%string = Some tc /\
        tc == row_sum ["מחל"; "שס"; "ג"; "ט"; "ב"]%string p.2
              + default 0 (p'.2 !! "saar"%string) /\
        p'.2 !! "opp"%string = Some to /\
        to == row_sum ["פה"; "ל"; "עם"; "ום"; "אמת"; "מרצ"]%string p.2
              + default 0 (cmul_scalar (p.2 !! "כן"%string) (1 - ratio)))
    (rows data) (rows d).
Proof.
  intros H. apply bloc_totals_rows in H. rewrite H. clear H d.
  apply Forall2_fmap_r, Forall_Forall2_diag, Forall_forall.
  intros [l r] _. simpl. split; [done|].
  rewrite totals_row_saar, totals_row_coal. split; [done|].
  destruct (totals_row_opp ratio r) as (t & -> & Ht).
  eexists _, t. split; [reflexivity|]. split; [reflexivity|]. by split.
Qed.

Lemma synthetic_column_in_coalition_witness :
  exists d, bloc_totals (1 # 2) split_example = Ok d /\
    Forall2 (fun p p' => p'.1 = p.1 /\
               p'.2 !! "saar"%string = cmul_scalar (p.2 !! "כן"%string) (1 # 2))
            (rows split_example) (rows d).
Proof.
  eexists. split; [vm_compute; reflexivity|].
  eapply Forall2_impl;
    [eapply (synthetic_column_in_coalition (1 # 2) split_example);
     vm_compute; reflexivity|].
  simpl. tauto.
Defined.

(** C4 as stated fails: with ratio 1/2 and a locality whose only votes are
    100 for the split party, no coalition party has a vote, the synthetic
    column holds 50 votes, and the coalition total is 50, not 0. *)
Lemma synthetic_votes_counted :
  exists d r,
    bloc_totals (1 # 2) split_example = Ok d /\
    rows d = [("A"%string, r)] /\
    row_sum ["מחל"; "שס"; "ג"; "ט"; "ב"]%string r == 0 /\
    (exists s, r !! "saar"%string = Some s /\ s == 50) /\
    (exists t, r !! "coal"%string = Some t /\ t == 50).
Proof.
  eexists _, _. split; [vm_compute; reflexivity|].
  split; [reflexivity|].
  split; [vm_compute; reflexivity|].
  split; eexists; (split; [vm_compute; reflexivity | vm_compute; reflexivity]).
Qed.

(** ** Cleaner *)

Lemma lookup_mask_row cols r c v :
  mask_row cols r !! c = Some v <-> r !! c = Some v /\ c ∈ cols /\ 0 < v.
Proof. unfold mask_row. by rewrite map_lookup_filter_Some. Qed.

Lemma mask_row_complete cols r :
  Forall (fun c => is_Some (mask_row cols r !! c)) cols <->
  (forall c, c ∈ cols -> positive c r).
Proof.
  rewrite Forall_forall. split; intros H c Hc.
  - destruct (H c Hc) as [v Hv]. apply lookup_mask_row in Hv.
    exists v. tauto.
  - destruct (H c Hc) as (v & Hv & Hpos). exists v.
    by apply lookup_mask_row.
Qed.

Section cleaner_facts.
Context {L : Type}.
Implicit Types (df : DataFrame L) (p : L * gmap string Q).

(** The rows that get through lines 75 and 76. *)
Lemma filtered_rows cols df p :
  p ∈ rows (dropna_subset cols (where_gt0 cols df)) <->
  exists p0, p0 ∈ rows df /\ p = (p0.1, mask_row cols p0.2) /\
             forall c, c ∈ cols -> positive c p0.2.
Proof.
  unfold dropna_subset, where_gt0. simpl.
  rewrite list_elem_of_filter, list_elem_of_fmap. split.
  - intros (Hall & p0 & -> & Hin). exists p0.
    split; [done|]. split; [done|]. by apply mask_row_complete.
  - intros (p0 & Hin & -> & Hpos). split; [|by exists p0].
    by apply mask_row_complete.
Qed.

Lemma filtered_complete cols df c :
  c ∈ cols -> column_complete (dropna_subset cols (where_gt0 cols df)) c.
Proof.
  intros Hc. apply Forall_forall. intros p Hp.
  apply filtered_rows in Hp as (p0 & _ & -> & Hpos).
  destruct (Hpos c Hc) as (v & Hv & Hv0). exists v.
  by apply lookup_mask_row.
Qed.

Lemma filtered_complete_inv cols df c :
  rows (dropna_subset cols (where_gt0 cols df)) <> [] ->
  column_complete (dropna_subset cols (where_gt0 cols df)) c -> c ∈ cols.
Proof.
  intros Hne Hall.
  destruct (rows (dropna_subset cols (where_gt0 cols df))) as [|p ps] eqn:E;
    [done|].
  assert (Hp : p ∈ rows (dropna_subset cols (where_gt0 cols df)))
    by (rewrite E; left).
  unfold column_complete in Hall. rewrite E in Hall.
  apply Forall_cons in Hall as [[v Hv] _].
  apply filtered_rows in Hp as (p0 & _ & -> & _).
  apply lookup_mask_row in Hv. tauto.
Qed.
End cleaner_facts.

Lemma clean_inv data da :
  clean data = Ok da ->
  Forall (fun c => c ∈ columns data) checked /\
  da = dropna_axis1 (dropna_subset checked (where_gt0 checked data)).
Proof.
  unfold clean. intros H. do 2 inv_bind H. injection H as <-.
  split; [|done]. by eapply require_Ok.
Qed.

(** A surviving row is an input row that passes, cut down to the checked
    columns. *)
Lemma clean_row_origin data da l r' :
  clean data = Ok da -> (l, r') ∈ rows da ->
  exists r, (l, r) ∈ rows data /\ passes r /\
    forall c v, r' !! c = Some v <-> c ∈ checked /\ r !! c = Some v.
Proof.
  intros H Hin. apply clean_inv in H as [Hcols ->].
  unfold dropna_axis1 in Hin. simpl in Hin.
  apply list_elem_of_fmap in Hin as (p & [= -> ->] & Hp).
  apply filtered_rows in Hp as ([l0 r] & Hin & -> & Hpos). simpl in *.
  exists r. split; [done|]. split; [done|]. intros c v.
  rewrite map_lookup_filter_Some, lookup_mask_row, list_elem_of_filter. simpl.
  split; [tauto|]. intros [Hc Hv].
  destruct (Hpos c Hc) as (v' & Hv' & Hv0).
  assert (v' = v) as -> by congruence.
  repeat split; try done.
  - by apply filtered_complete.
  - rewrite Forall_forall in Hcols. auto.
Qed.

Lemma clean_row_kept data da l r :
  clean data = Ok da -> (l, r) ∈ rows data -> passes r -> l ∈ index da.
Proof.
  intros H Hin Hpos. apply clean_inv in H as [_ ->].
  unfold index, dropna_axis1. simpl. rewrite <- list_fmap_compose.
  apply list_elem_of_fmap. eexists (l, mask_row checked r).
  split; [done|]. apply filtered_rows. by exists (l, r).
Qed.

Lemma cleaner_rows_pass data da l r :
  clean data = Ok da -> (l, r) ∈ rows da -> passes r.
Proof.
  intros H Hin.
  destruct (clean_row_origin _ _ _ _ H Hin) as (r0 & _ & Hpos & Hr0).
  intros c Hc. destruct (Hpos c Hc) as (v & Hv & Hv0).
  exists v. split; [|done]. by apply Hr0.
Qed.

(** ** Duplicated labels *)

Lemma drop_duplicated_sub {L} `{EqDecision L} (seen : list L) rs p :
  p ∈ drop_duplicated seen rs -> p ∈ rs /\ p.1 ∉ seen.
Proof.
  revert seen. induction rs as [|q rs IH]; simpl; intros seen Hp.
  - by apply elem_of_nil in Hp.
  - case_decide as Hq.
    + apply IH in Hp as [? ?]. split; [by right | done].
    + apply elem_of_cons in Hp as [->|Hp]; [split; [left | done]|].
      apply IH in Hp as [? Hs]. split; [by right|].
      intros ?. apply Hs. by right.
Qed.

Lemma drop_duplicated_NoDup {L} `{EqDecision L} (seen : list L) rs :
  NoDup (fst <$> drop_duplicated seen rs).
Proof.
  revert seen. induction rs as [|q rs IH]; simpl; intros seen.
  - constructor.
  - case_decide as Hq; [apply IH|].
    csimpl. apply NoDup_cons. split; [|apply IH].
    intros Hin. apply list_elem_of_fmap in Hin as (p & Hp1 & Hp).
    apply drop_duplicated_sub in Hp as [_ Hs]. apply Hs. rewrite <- Hp1. left.
Qed.

Lemma deduplicate_NoDup data : NoDup (index (deduplicate data)).
Proof. apply drop_duplicated_NoDup. Qed.

Lemma NoDup_index_row {L} (rs : list (L * gmap string Q)) l r1 r2 :
  NoDup (fst <$> rs) -> (l, r1) ∈ rs -> (l, r2) ∈ rs -> r1 = r2.
Proof.
  induction rs as [|[l0 r0] rs IH]; csimpl; intros Hnd H1 H2.
  - by apply elem_of_nil in H1.
  - apply NoDup_cons in Hnd as [Hl Hnd].
    apply elem_of_cons in H1 as [H1|H1]; apply elem_of_cons in H2 as [H2|H2].
    + congruence.
    + injection H1 as -> ->. destruct Hl.
      apply list_elem_of_fmap. by exists (l0, r2).
    + injection H2 as -> ->. destruct Hl.
      apply list_elem_of_fmap. by exists (l0, r1).
    + by apply IH.
Qed.

(** C1: after lines 72-77 every row of the analysis table has its three
    checked cells present and strictly positive; a row of the table that
    fails this is not in the analysis table, and a row that meets it is. *)
Theorem cleaner_keeps_positive_rows (data da : DataFrame string) :
  clean (deduplicate data) = Ok da ->
  (forall l r, (l, r) ∈ rows da -> passes r) /\
  (forall l r, (l, r) ∈ rows (deduplicate data) -> ~ passes r -> l ∉ index da) /\
  (forall l r, (l, r) ∈ rows (deduplicate data) -> passes r -> l ∈ index da).
Proof.
  intros H. split; [|split].
  - intros l r' Hin. by eapply cleaner_rows_pass.
  - intros l r Hin Hfail Hl.
    apply list_elem_of_fmap in Hl as ([l' r'] & -> & Hin'). simpl in *.
    destruct (clean_row_origin _ _ _ _ H Hin') as (r0 & Hin0 & Hpos & _).
    apply Hfail.
    by rewrite (NoDup_index_row _ _ r r0 (deduplicate_NoDup data) Hin Hin0).
  - intros l r Hin Hpos. by eapply clean_row_kept.
Qed.

Lemma cleaner_keeps_positive_rows_witness :
  exists da, clean (deduplicate scenario) = Ok da /\
    index da = ["A"; "B"]%string /\
    forall l r, (l, r) ∈ rows da -> passes r.
Proof.
  eexists. split; [vm_compute; reflexivity|]. split; [reflexivity|].
  eapply (cleaner_keeps_positive_rows scenario). vm_compute; reflexivity.
Defined.

(** C3, as the code has it: the three checked columns are always in the
    analysis table; when at least one row survives they are its only
    columns, because the mask of line 75 blanks every other column before
    line 77 drops the columns with a missing value; when no row survives,
    line 77 drops nothing. *)
Theorem cleaner_columns (data da : DataFrame string) :
  clean data = Ok da ->
  (forall c, c ∈ checked -> c ∈ columns da) /\
  (rows da <> [] -> forall c, c ∈ columns da <-> c ∈ checked) /\
  (rows da = [] -> columns da = columns data).
Proof.
  intros H. apply clean_inv in H as [Hcols ->].
  rewrite Forall_forall in Hcols.
  assert (Hin : forall c, c ∈ checked ->
    c ∈ columns (dropna_axis1 (dropna_subset checked (where_gt0 checked data)))).
  { intros c Hc. apply dropna_axis1_columns.
    split; [by apply filtered_complete | by apply Hcols]. }
  split; [exact Hin|]. split.
  - intros Hne c. split; [|apply Hin].
    intros [Hc _]%dropna_axis1_columns.
    apply (filtered_complete_inv checked data); [|done].
    intros E. by apply Hne, dropna_axis1_rows_nil.
  - intros E. apply (proj1 (dropna_axis1_rows_nil _)) in E.
    by rewrite dropna_axis1_empty.
Qed.

Lemma cleaner_columns_witness :
  exists da, clean (deduplicate scenario) = Ok da /\
    forall c, c ∈ checked -> c ∈ columns da.
Proof.
  eexists. split; [vm_compute; reflexivity|].
  refine (proj1 (cleaner_columns (deduplicate scenario) _ _)).
  vm_compute; reflexivity.
Defined.

(** C3 as stated fails: in the scenario the population is missing only for
    locality C, which the row filter excludes, and still the analysis table
    has no population column. *)
Lemma column_missing_only_in_excluded_rows_dropped :
  exists da, clean (deduplicate scenario) = Ok da /\
    "pop"%string ∈ columns (deduplicate scenario) /\
    (forall l r, (l, r) ∈ rows (deduplicate scenario) ->
                 r !! "pop"%string = None -> l ∉ index da) /\
    "pop"%string ∉ columns da.
Proof.
  eexists. split; [vm_compute; reflexivity|]. split; [|split].
  - apply (bool_decide_unpack _). by vm_compute.
  - intros l r Hin. revert l r Hin.
    match goal with
    | |- forall l r, (l, r) ∈ ?rs -> @?P l r =>
        assert (HF : Forall (fun p => P p.1 p.2) rs);
          [|intros l r Hin; exact (proj1 (Forall_forall _ _) HF (l, r) Hin)]
    end.
    apply (bool_decide_unpack _). by vm_compute.
  - apply (bool_decide_unpack _). by vm_compute.
Qed.

(** ** Ratio calculator *)

Lemma ratios_rows data da da' :
  ratios data da = Ok da' ->
  rows da' =
    (fun p => (p.1, ratios_row (at_label p.1 "כשרים" data) p.2)) <$> rows da.
Proof.
  unfold ratios. intros H.
  do 7 inv_bind H. injection H as <-. simpl.
  rewrite <- !list_fmap_compose. by apply list_fmap_ext.
Qed.

Lemma ratios_columns data da da' c :
  ratios data da = Ok da' ->
  c ∈ ["kosher"; "reserve_days"; "coal_ratio"; "opp_ratio"]%string ->
  c ∈ columns da'.
Proof.
  unfold ratios. intros H Hc.
  inv_bind H. inv_bind H.
  eapply require_Ok, Forall_cons in Hreq0 as [Hrd _].
  do 5 inv_bind H. injection H as <-. simpl in *.
  repeat (apply elem_of_cons in Hc as [->|Hc]);
    [| | | |by apply elem_of_nil in Hc].
  - do 6 apply add_column_mono. apply add_column_here.
  - by do 6 apply add_column_mono.
  - do 3 apply add_column_mono. apply add_column_here.
  - do 2 apply add_column_mono. apply add_column_here.
Qed.


Lemma ratios_row_passes k r :
  passes r ->
  exists c o d,
    0 < c /\ 0 < o /\ 0 < d /\
    ratios_row k r !! "coal"%string = Some c /\
    ratios_row k r !! "opp"%string = Some o /\
    ratios_row k r !! "reserve_days"%string = Some d /\
    ratios_row k r !! "kosher"%string = k /\
    ratios_row k r !! "coal_ratio"%string = Some (c / (c + o)) /\
    ratios_row k r !! "opp_ratio"%string = Some (1 - c / (c + o)) /\
    ratios_row k r !! "coal_reserves_times_ratio"%string
      = Some (c / (c + o) * d) /\
    ratios_row k r !! "opp_reserves_times_ratio"%string
      = Some ((1 - c / (c + o)) * d).
Proof.
  intros Hpos.
  destruct (Hpos "coal"%string) as (c & Hc & Hc0); [set_solver|].
  destruct (Hpos "opp"%string) as (o & Ho & Ho0); [set_solver|].
  destruct (Hpos "reserve_days"%string) as (d & Hd & Hd0); [set_solver|].
  exists c, o, d. do 3 (split; [done|]).
  assert (Hne : ~ c + o == 0) by lra.
  unfold ratios_row.
  repeat split; simpl_cells; rewrite ?Hc, ?Ho, ?Hd; simpl;
    try (destruct (decide (c + o == 0)); [done|]); done.
Qed.

Lemma analysis_inv ratio data da' :
  analysis ratio data = Ok da' ->
  exists d da, bloc_totals ratio data = Ok d /\
    clean (deduplicate d) = Ok da /\ ratios (deduplicate d) da = Ok da'.
Proof.
  unfold analysis. intros H. inv_bind H. inv_bind H. eauto.
Qed.

(** Every row of the analysis table, with its label [l] and the original
    valid-vote cell at that label. *)
Lemma analysis_row ratio data da l r :
  analysis ratio data = Ok da -> (l, r) ∈ rows da ->
  exists d r0, bloc_totals ratio data = Ok d /\ passes r0 /\
    r = ratios_row (at_label l "כשרים" (deduplicate d)) r0 /\
    l ∈ index (deduplicate d).
Proof.
  intros H Hin. apply analysis_inv in H as (d & da0 & Hd & Hclean & Hr).
  apply ratios_rows in Hr. rewrite Hr in Hin.
  apply list_elem_of_fmap in Hin as ([l0 r0] & [= -> ->] & Hin0). simpl.
  exists d, r0. split; [done|].
  split; [by eapply (cleaner_rows_pass (deduplicate d))|]. split; [done|].
  destruct (clean_row_origin _ _ _ _ Hclean Hin0) as (r1 & Hin1 & _).
  apply list_elem_of_fmap. by exists (l0, r1).
Qed.





(** ** Binner *)










(** ** Cumulative sums *)

Lemma extends_trans {L} (cs1 cs2 : list string) (x y z : L * gmap string Q) :
  extends cs1 x y -> extends cs2 y z -> extends (cs1 ++ cs2) x z.
Proof.
  intros [Hl1 H1] [Hl2 H2]. split; [congruence|].
  intros c Hc. rewrite H2, H1; [done|..];
    intros ?; apply Hc, elem_of_app; auto.
Qed.


Section cumsum_facts.
Context {L : Type}.
Implicit Types (rs : list (L * gmap string Q)) (src dst : string).

Lemma cumsum_from_extends acc src dst rs :
  Forall2 (extends [dst]) rs (cumsum_from acc src dst rs).
Proof.
  revert acc. induction rs as [|p rs IH]; intros acc; simpl; [constructor|].
  destruct (p.2 !! src) as [v|]; (constructor; [|apply IH]);
    (split; [done|]); intros c Hc; simpl.
  - apply lookup_insert_ne. set_solver.
  - apply lookup_delete_ne. set_solver.
Qed.


(** Over present, positive cells every running sum is positive. *)
Lemma cumsum_from_positive acc src dst rs p' :
  0 <= acc ->
  Forall (fun p => exists v, p.2 !! src = Some v /\ 0 < v) rs ->
  p' ∈ cumsum_from acc src dst rs ->
  exists x, p'.2 !! dst = Some x /\ 0 < x.
Proof.
  revert acc. induction rs as [|p rs IH]; intros acc Hacc Hall; simpl.
  { intros Hp. by apply elem_of_nil in Hp. }
  apply Forall_cons in Hall as [(v & Hv & Hv0) Hall]. rewrite Hv.
  intros [->|Hp]%elem_of_cons.
  - exists (acc + v). simpl. rewrite lookup_insert_eq. split; [done | lra].
  - apply (IH (acc + v)); [lra | done | done].
Qed.
End cumsum_facts.

(** ** One turn of the loop, on rows *)

Section related_facts.
Context {A : Type}.
Implicit Types (R : A -> A -> Prop) (l : list A).

Lemma related_Forall2 R l l' : Forall2 R l l' -> related R l l'.
Proof.
  intros H. split.
  - intros x' [i Hi]%list_elem_of_lookup_1.
    destruct (Forall2_lookup_r _ _ _ _ _ H Hi) as (x & Hx & HR).
    exists x. split; [by eapply list_elem_of_lookup_2 | done].
  - intros x [i Hi]%list_elem_of_lookup_1.
    destruct (Forall2_lookup_l _ _ _ _ _ H Hi) as (x' & Hx & HR).
    exists x'. split; [by eapply list_elem_of_lookup_2 | done].
Qed.

Lemma related_Permutation l l' : l ≡ₚ l' -> related eq l l'.
Proof.
  intros H. split; intros x Hx; exists x; (split; [|done]).
  - by rewrite H.
  - by rewrite <- H.
Qed.

Lemma related_fmap (f : A -> A) l : related (fun x x' => x' = f x) l (f <$> l).
Proof.
  split.
  - intros x' (x & -> & Hx)%list_elem_of_fmap. by exists x.
  - intros x Hx. exists (f x). split; [by apply list_elem_of_fmap_2 | done].
Qed.

Lemma related_trans R1 R2 R3 l1 l2 l3 :
  (forall x y z, R1 x y -> R2 y z -> R3 x z) ->
  related R1 l1 l2 -> related R2 l2 l3 -> related R3 l1 l3.
Proof.
  intros HR [H1 H1'] [H2 H2']. split.
  - intros z Hz. destruct (H2 z Hz) as (y & Hy & Hyz).
    destruct (H1 y Hy) as (x & Hx & Hxy). exists x. eauto.
  - intros x Hx. destruct (H1' x Hx) as (y & Hy & Hxy).
    destruct (H2' y Hy) as (z & Hz & Hyz). exists z. eauto.
Qed.

Lemma related_Forall R (P P' : A -> Prop) l l' :
  (forall x x', R x x' -> P x -> P' x') ->
  related R l l' -> Forall P l -> Forall P' l'.
Proof.
  intros HR [H _]. rewrite !Forall_forall. intros HP x' Hx'.
  destruct (H x' Hx') as (x & Hx & Hxx'). eauto.
Qed.
End related_facts.

Section step_facts.
Variables pratio pc pr pv : string.
Hypothesis pc_pr : pc <> pr.
Hypothesis pc_pv : pc <> pv.
Hypothesis pr_pv : pr <> pv.
Hypothesis pr_kosher : pr <> "kosher"%string.
Hypothesis pc_kosher : pc <> "kosher"%string.
Hypothesis pc_days : pc <> "reserve_days"%string.
Implicit Types (rs : list (string * gmap string Q)).

Let cut_rows rs :=
  (fun p : string * gmap string Q =>
     (p.1, set_cell pc (cut bins labels (p.2 !! pratio)) p.2)) <$> rs.
Let sorted_rows rs := merge_sort (key_le pc) (cut_rows rs).
Let summed_rows rs := cumsum_from 0 "reserve_days" pr (sorted_rows rs).

Lemma sorted_rows_related rs :
  related (fun p p' => p'.1 = p.1 /\ p'.2 !! pc = cut bins labels (p.2 !! pratio)
                       /\ forall c, c <> pc -> p'.2 !! c = p.2 !! c)
          rs (sorted_rows rs).
Proof.
  eapply related_trans;
    [|apply related_fmap | apply related_Permutation; symmetry;
                           apply merge_sort_Permutation].
  intros p p1 p' -> <-. simpl. split; [done|].
  rewrite lookup_set_cell. case_decide; [|done]. split; [done|].
  intros c Hc. rewrite lookup_set_cell. by case_decide.
Qed.

Lemma step_rows_related rs :
  related (step_rel pratio pc pr pv) rs (step_rows pratio pc pr pv rs).
Proof.
  eapply related_trans; [|apply sorted_rows_related|].
  2: { eapply (related_trans (extends [pr]) (extends [pv])
                 (extends ([pr] ++ [pv])));
         [apply extends_trans | apply related_Forall2, cumsum_from_extends..]. }
  intros p p1 p' (Hl & Hcut & Hother) [Hl1 H1]. simpl in *.
  split; [split|].
  - congruence.
  - intros c Hc. rewrite H1, Hother; [done|..]; set_solver.
  - rewrite H1; [done|]. set_solver.
Qed.

Lemma summed_rows_days rs :
  Forall (fun p => positive "reserve_days" p.2) rs ->
  Forall (fun p => positive "reserve_days" p.2) (sorted_rows rs).
Proof.
  apply related_Forall with (R := fun p p' => p'.1 = p.1 /\
    p'.2 !! pc = cut bins labels (p.2 !! pratio) /\
    forall c, c <> pc -> p'.2 !! c = p.2 !! c);
    [|apply sorted_rows_related].
  intros p p' (_ & _ & H) (v & Hv & Hv0). exists v.
  split; [|done]. rewrite H; [done|]. congruence.
Qed.


(** The cumulative reserve days of every row are present and positive. *)
Lemma step_rows_reserves rs p' :
  Forall (fun p => positive "reserve_days" p.2) rs ->
  p' ∈ step_rows pratio pc pr pv rs -> positive pr p'.2.
Proof.
  intros Hall Hp'.
  destruct (related_Forall2 _ _ _
              (cumsum_from_extends 0 "kosher" pv (summed_rows rs)))
    as [Hback _].
  destruct (Hback p' Hp') as (p1 & Hp1 & _ & Heq).
  unfold positive. rewrite Heq by set_solver.
  eapply cumsum_from_positive; [| |exact Hp1]; [lra|].
  by apply summed_rows_days.
Qed.

End step_facts.

(** ** One turn of the loop, on the result table *)

Lemma require_intro {L} cols (df : DataFrame L) :
  Forall (fun c => c ∈ columns df) cols -> require cols df = Ok ().
Proof. apply require_Ok. Qed.

Lemma bind_Ok_intro {A B} (m : result A) (f : A -> result B) a b :
  m = Ok a -> f a = Ok b -> m ≫= f = Ok b.
Proof. by intros -> <-. Qed.

Lemma bind_Ok_total {A B} (m : result A) (f : A -> result B) a :
  m = Ok a -> (exists b, f a = Ok b) -> exists b, m ≫= f = Ok b.
Proof. by intros ->. Qed.

Lemma foldl_cmax_positive (xs : list cell) (acc : cell) :
  Forall (fun a => exists x, a = Some x /\ 0 < x) xs ->
  (forall m, acc = Some m -> 0 < m) ->
  xs <> [] \/ acc <> None ->
  exists m, foldl cmax acc xs = Some m /\ 0 < m.
Proof.
  revert acc. induction xs as [|a xs IH]; intros acc Hall Hacc Hne; simpl.
  - destruct acc as [m|]; [exists m; auto | by destruct Hne].
  - apply Forall_cons in Hall as [(x & -> & Hx) Hall].
    apply IH; [done| |right].
    + destruct acc as [m|]; simpl; intros m' [= <-]; [|done].
      eapply Qlt_le_trans; [exact Hx | apply Q.le_max_r].
    + by destruct acc.
Qed.

Lemma group_max_empty {L} pc pr (rs : list (L * gmap string Q)) cat :
  (forall p, p ∈ rs -> ~ in_group pc cat p) -> group_max pc pr rs cat = None.
Proof.
  intros H. unfold group_max.
  assert (filter (in_group pc cat) rs = []) as ->; [|done].
  induction rs as [|p rs IH]; [done|].
  rewrite filter_cons_False; [apply IH|apply H; left].
  intros q Hq. apply H. by right.
Qed.

Lemma group_max_positive {L} pc pr (rs : list (L * gmap string Q)) cat p :
  (forall q, q ∈ rs -> positive pr q.2) ->
  p ∈ rs -> in_group pc cat p ->
  exists m, group_max pc pr rs cat = Some m /\ 0 < m.
Proof.
  intros Hpos Hp Hin. unfold group_max. apply foldl_cmax_positive.
  - apply Forall_fmap, Forall_forall. intros q [_ Hq]%list_elem_of_filter.
    destruct (Hpos q Hq) as (x & Hx & Hx0). by exists x.
  - done.
  - left. intros E%fmap_nil_inv.
    assert (Hf : p ∈ filter (in_group pc cat) rs)
      by by apply list_elem_of_filter.
    rewrite E in Hf. by apply elem_of_nil in Hf.
Qed.

(** The first entry whose label equals [q], in a list with labels [cats]. *)
Lemma list_find_label {A} (q : Q) (rs : list (Q * A)) (cats : list Q) i l :
  fst <$> rs = cats ->
  list_find (fun l => l == q) cats = Some (i, l) ->
  exists a, rs !! i = Some (l, a) /\
            list_find (fun p => p.1 == q) rs = Some (i, (l, a)).
Proof.
  intros <- (Hi & Hq & Hfirst)%list_find_Some.
  rewrite list_lookup_fmap in Hi.
  destruct (rs !! i) as [[l' a]|] eqn:E; [|done]. injection Hi as ->.
  exists a. split; [done|]. apply list_find_Some. split; [done|].
  split; [done|]. intros j [lj aj] Hj Hlt. simpl.
  apply (Hfirst j lj); [|done]. by rewrite list_lookup_fmap, Hj.
Qed.

Lemma labels_find_095 :
  list_find (fun l => l == 0.95) labels = Some (19%nat, 0.95).
Proof. reflexivity. Qed.

Lemma groupby_max_index {L} pc pr cats (df : DataFrame L) :
  fst <$> groupby_max pc pr cats df = cats.
Proof.
  unfold groupby_max. rewrite <- list_fmap_compose.
  rewrite <- (list_fmap_id cats) at 2. by apply list_fmap_ext.
Qed.

Lemma agg_at_095 {L} pc pr (df : DataFrame L) :
  agg_at 0.95 (groupby_max pc pr labels df) = group_max pc pr (rows df) 0.95.
Proof.
  unfold agg_at.
  destruct (list_find_label 0.95 (groupby_max pc pr labels df) labels _ _
              (groupby_max_index _ _ _ _) labels_find_095) as (a & Ha & ->).
  simpl. unfold groupby_max in Ha. rewrite list_lookup_fmap in Ha.
  change (labels !! 19%nat) with (Some 0.95) in Ha. by injection Ha as <-.
Qed.

Lemma loc_095 (results : DataFrame Q) c :
  index results = labels -> c ∈ columns results ->
  exists r, rows results !! 19%nat = Some (0.95, r) /\
            loc 0.95 c results = Ok (r !! c).
Proof.
  intros Hidx Hc. unfold loc.
  destruct (list_find_label 0.95 (rows results) labels _ _ Hidx
              labels_find_095) as (r & Hr & ->).
  exists r. split; [done|]. by case_decide.
Qed.

Lemma set_from_groups_index c agg (results : DataFrame Q) :
  results_ready results -> fst <$> agg = labels ->
  index (set_from_groups c agg results) = labels.
Proof.
  intros Hready Hagg. unfold set_from_groups. rewrite index_assign.
  destruct Hready as [E|Hidx].
  - rewrite E. unfold index. simpl. rewrite <- list_fmap_compose.
    rewrite <- Hagg. by apply list_fmap_ext.
  - destruct (rows results) eqn:E; [|done].
    unfold index in Hidx. by rewrite E in Hidx.
Qed.

Lemma loc_assign_095 (results : DataFrame Q) c f :
  index results = labels ->
  exists r, rows results !! 19%nat = Some (0.95, r) /\
            loc 0.95 c (assign c f results) = Ok (f 0.95 r).
Proof.
  intros Hidx.
  destruct (loc_095 (assign c f results) c) as (r' & Hr' & ->);
    [by rewrite index_assign | apply add_column_here|].
  unfold assign in Hr'. simpl in Hr'. rewrite list_lookup_fmap in Hr'.
  destruct (rows results !! 19%nat) as [[l r]|] eqn:E; [|done].
  injection Hr' as -> <-. exists r. split; [done|].
  rewrite lookup_set_cell. by case_decide.
Qed.

Lemma loc_assign_other_095 (results : DataFrame Q) c c' f :
  c <> c' -> index results = labels -> c' ∈ columns results ->
  loc 0.95 c' (assign c f results) = loc 0.95 c' results.
Proof.
  intros Hne Hidx Hc'.
  destruct (loc_095 results c' Hidx Hc') as (r & Hr & ->).
  destruct (loc_095 (assign c f results) c') as (r' & Hr' & ->);
    [by rewrite index_assign | by apply add_column_mono|].
  unfold assign in Hr'. simpl in Hr'. rewrite list_lookup_fmap, Hr in Hr'.
  injection Hr' as <-. rewrite lookup_set_cell. by case_decide.
Qed.

(** ** The loop *)

Lemma bloc_step_inv party da results st' :
  bloc_step party (da, results) = Ok st' ->
  rows st'.1 = step_rows (party +:+ "_ratio") (party +:+ "_cut")
                 (party +:+ "_reserves") (party +:+ "_votes_cumsum") (rows da) /\
  (forall c, c ∈ columns da -> c ∈ columns st'.1) /\
  exists d,
    loc 0.95 party
      (set_from_groups party
         (groupby_max (party +:+ "_cut") (party +:+ "_reserves") labels st'.1)
         results) = Ok d /\
    st'.2 = assign party (fun _ r => cdiv (r !! party) d)
              (set_from_groups party
                 (groupby_max (party +:+ "_cut") (party +:+ "_reserves")
                    labels st'.1)
                 results).
Proof.
  unfold bloc_step. simpl. intros H.
  do 5 inv_bind H. apply bind_Ok in H as (d & Hd & H). inv_bind H.
  injection H as <-. simpl. split; [done|]. split.
  - intros c Hc. by do 3 apply add_column_mono.
  - by exists d.
Qed.

Lemma bloc_step_total party da results :
  (party +:+ "_ratio") ∈ columns da ->
  "reserve_days"%string ∈ columns da -> "kosher"%string ∈ columns da ->
  results_ready results ->
  exists st', bloc_step party (da, results) = Ok st'.
Proof.
  intros Hratio Hdays Hkosher Hready. unfold bloc_step.
  cbv zeta. cbn [fst snd].
  eapply bind_Ok_total; [apply require_intro; by repeat constructor|].
  eapply bind_Ok_total;
    [apply require_intro; repeat constructor; apply add_column_here|].
  eapply bind_Ok_total;
    [apply require_intro; repeat constructor; by apply add_column_mono|].
  eapply bind_Ok_total;
    [apply require_intro; repeat constructor; by do 2 apply add_column_mono|].
  eapply bind_Ok_total.
  { apply require_intro; repeat constructor.
    - apply add_column_mono, add_column_here.
    - do 2 apply add_column_mono. apply add_column_here. }
  match goal with
  | |- context [loc 0.95 party ?r] =>
      destruct (loc_095 r party) as (r0 & _ & Hloc)
  end.
  { apply set_from_groups_index; [done | apply groupby_max_index]. }
  { apply add_column_here. }
  eapply bind_Ok_total; [exact Hloc|].
  eapply bind_Ok_total;
    [apply require_intro; repeat constructor; apply add_column_here|].
  eexists. reflexivity.
Qed.

(** After a turn the result table is indexed by the bin labels and holds
    the bloc's column next to the ones it had. *)
Lemma bloc_step_results party da results st' :
  results_ready results ->
  bloc_step party (da, results) = Ok st' ->
  index st'.2 = labels /\ party ∈ columns st'.2 /\
  (forall c, c ∈ columns results -> c ∈ columns st'.2) /\
  loc 0.95 party st'.2 =
    Ok (cdiv (group_max (party +:+ "_cut") (party +:+ "_reserves")
                (rows st'.1) 0.95)
             (group_max (party +:+ "_cut") (party +:+ "_reserves")
                (rows st'.1) 0.95)) /\
  (group_max (party +:+ "_cut") (party +:+ "_reserves") (rows st'.1) 0.95 = None ->
   forall l r, (l, r) ∈ rows st'.2 -> r !! party = None) /\
  (forall c, c <> party -> index results = labels -> c ∈ columns results ->
             loc 0.95 c st'.2 = loc 0.95 c results).
Proof.
  intros Hready H.
  apply bloc_step_inv in H as (_ & _ & d & Hd & ->).
  set (agg := groupby_max _ _ labels st'.1) in *.
  set (res1 := set_from_groups party agg results) in *.
  assert (Hidx : index res1 = labels)
    by (apply set_from_groups_index; [done | apply groupby_max_index]).
  assert (Hd' : d = group_max (party +:+ "_cut") (party +:+ "_reserves")
                      (rows st'.1) 0.95).
  { unfold res1, set_from_groups in Hd.
    match type of Hd with
    | loc _ _ (assign _ ?f ?base) = _ =>
        destruct (loc_assign_095 base party f) as (r & _ & Hloc)
    end.
    { unfold res1, set_from_groups in Hidx. by rewrite index_assign in Hidx. }
    rewrite Hloc in Hd. injection Hd as <-. apply agg_at_095. }
  split; [by rewrite index_assign|]. split; [apply add_column_here|]. split.
  { intros c Hc. apply add_column_mono. unfold res1, set_from_groups.
    apply add_column_mono. by destruct (rows results). }
  split.
  { destruct (loc_assign_095 res1 party (fun _ r => cdiv (r !! party) d) Hidx)
      as (r & Hr & ->).
    destruct (loc_095 res1 party Hidx) as (r' & Hr' & Hloc);
      [apply add_column_here|].
    rewrite Hloc in Hd. injection Hd as <-.
    assert (r' = r) as -> by congruence. by rewrite <- Hd'. }
  split.
  { intros Hnone l r Hin. rewrite <- Hd' in Hnone. subst d.
    apply list_elem_of_fmap in Hin as ([l0 r0] & [= -> ->] & _). simpl.
    rewrite lookup_set_cell. case_decide; [|done].
    rewrite Hnone. by destruct (r0 !! party). }
  intros c Hc Hidx0 Hcol.
  rewrite loc_assign_other_095; [|done|done|].
  2: { unfold res1, set_from_groups. apply add_column_mono.
       by destruct (rows results). }
  unfold res1, set_from_groups.
  destruct (rows results) eqn:E.
  { unfold index in Hidx0. by rewrite E in Hidx0. }
  by apply loc_assign_other_095.
Qed.

Lemma bloc_step_rows_other party da results st' l r' :
  bloc_step party (da, results) = Ok st' ->
  rows results <> [] -> (l, r') ∈ rows st'.2 ->
  exists r, (l, r) ∈ rows results /\ forall c, c <> party -> r' !! c = r !! c.
Proof.
  intros H Hne Hin. apply bloc_step_inv in H as (_ & _ & d & _ & H).
  rewrite H in Hin. clear H.
  unfold set_from_groups in Hin.
  destruct (rows results) as [|q qs] eqn:E; [done|].
  simpl in Hin. rewrite E, <- list_fmap_compose in Hin.
  apply list_elem_of_fmap in Hin as ([l0 r0] & [= -> ->] & Hin).
  exists r0. split; [done|]. intros c Hc. simpl.
  rewrite !lookup_set_cell. by case_decide.
Qed.

Lemma binning_inv da st :
  binning da = Ok st ->
  exists st1, bloc_step "coal" (da, mkDF [] []) = Ok st1 /\
              bloc_step "opp" st1 = Ok st.
Proof.
  unfold binning. simpl. intros H. inv_bind H.
  exists u. split; [done|]. by destruct u.
Qed.

Lemma pipeline_inv ratio data st :
  pipeline ratio data = Ok st ->
  exists da st1, analysis ratio data = Ok da /\
    bloc_step "coal" (da, mkDF [] []) = Ok st1 /\ bloc_step "opp" st1 = Ok st.
Proof.
  unfold pipeline. intros H. inv_bind H.
  apply binning_inv in H as (st1 & H1 & H2). eauto.
Qed.

(** ** The analysis table as the loop finds it *)

Lemma analysis_days ratio data da :
  analysis ratio data = Ok da ->
  Forall (fun p => positive "reserve_days" p.2) (rows da).
Proof.
  intros H. apply Forall_forall. intros [l r] Hin.
  destruct (analysis_row _ _ _ _ _ H Hin) as (d0 & r0 & _ & Hpos & -> & _).
  destruct (ratios_row_passes (at_label l "כשרים" (deduplicate d0)) r0 Hpos)
    as (c & o & d & _ & _ & Hd0 & _ & _ & Hd & _).
  by exists d.
Qed.



Lemma analysis_columns ratio data da c :
  analysis ratio data = Ok da ->
  c ∈ ["kosher"; "reserve_days"; "coal_ratio"; "opp_ratio"]%string ->
  c ∈ columns da.
Proof.
  intros H Hc. apply analysis_inv in H as (d & da0 & _ & _ & Hr).
  by eapply ratios_columns.
Qed.

(** What a turn for the other bloc leaves alone. *)
Lemma coal_step_keeps da results st1 :
  bloc_step "coal" (da, results) = Ok st1 ->
  related (fun p p' => forall c,
             c ∈ ["reserve_days"; "kosher"; "opp_ratio"]%string ->
             p'.2 !! c = p.2 !! c)
          (rows da) (rows st1.1).
Proof.
  intros H. apply bloc_step_inv in H as (-> & _).
  eapply related_trans; [|apply related_Permutation; reflexivity
                         |apply step_rows_related; done].
  intros p ? p' <- [[_ Hext] _] c Hc. apply Hext.
  intros Hc'. repeat (apply elem_of_cons in Hc as [->|Hc]);
    try (by apply elem_of_nil in Hc);
    repeat (apply elem_of_cons in Hc' as [?|Hc']; [discriminate|]);
    by apply elem_of_nil in Hc'.
Qed.

Lemma opp_step_keeps da results st2 :
  bloc_step "opp" (da, results) = Ok st2 ->
  related (fun p p' => p'.2 !! "coal_cut"%string = p.2 !! "coal_cut"%string)
          (rows da) (rows st2.1).
Proof.
  intros H. apply bloc_step_inv in H as (-> & _).
  eapply related_trans; [|apply related_Permutation; reflexivity
                         |apply step_rows_related; done].
  intros p ? p' <- [[_ Hext] _]. apply Hext.
  intros Hc'. repeat (apply elem_of_cons in Hc' as [?|Hc']; [discriminate|]).
  by apply elem_of_nil in Hc'.
Qed.



Lemma unwrap_Ok {A} (d : A) (m : result A) :
  is_ok m = true -> m = Ok (unwrap d m).
Proof. by destruct m. Qed.


Lemma cdiv_self (m : Q) :
  0 < m -> exists v, cdiv (Some m) (Some m) = Some v /\ v == 1.
Proof.
  intros Hm. unfold cdiv. case_decide as H0; [lra|].
  eexists. split; [reflexivity|]. by field.
Qed.

Lemma blocs_inv (party : string) :
  party ∈ blocs -> party = "coal"%string \/ party = "opp"%string.
Proof.
  intros [->|H]%elem_of_cons; [by left|].
  apply elem_of_cons in H as [->|H]; [by right|]. by apply elem_of_nil in H.
Qed.

(** The two turns of a run, with what each leaves behind. *)
Lemma two_turns da0 da1 res1 da results :
  Forall (fun p => positive "reserve_days" p.2) (rows da0) ->
  bloc_step "coal" (da0, mkDF [] []) = Ok (da1, res1) ->
  bloc_step "opp" (da1, res1) = Ok (da, results) ->
  (forall p, p ∈ rows da1 -> positive "coal_reserves" p.2) /\
  (forall p, p ∈ rows da -> positive "opp_reserves" p.2) /\
  related (fun p p' => p'.2 !! "coal_cut"%string = p.2 !! "coal_cut"%string)
          (rows da1) (rows da) /\
  index res1 = labels /\
  loc 0.95 "coal" results =
    Ok (cdiv (group_max "coal_cut" "coal_reserves" (rows da1) 0.95)
             (group_max "coal_cut" "coal_reserves" (rows da1) 0.95)) /\
  loc 0.95 "opp" results =
    Ok (cdiv (group_max "opp_cut" "opp_reserves" (rows da) 0.95)
             (group_max "opp_cut" "opp_reserves" (rows da) 0.95)) /\
  (group_max "coal_cut" "coal_reserves" (rows da1) 0.95 = None ->
   forall l r, (l, r) ∈ rows results -> r !! "coal"%string = None) /\
  (group_max "opp_cut" "opp_reserves" (rows da) 0.95 = None ->
   forall l r, (l, r) ∈ rows results -> r !! "opp"%string = None).
Proof.
  intros Hdays0 H1 H2.
  assert (Hdays1 : Forall (fun p => positive "reserve_days" p.2) (rows da1)).
  { eapply related_Forall; [|exact (coal_step_keeps _ _ _ H1)|exact Hdays0].
    intros p p' H (v & Hv & Hv0). exists v. rewrite H; [done|].
    apply (bool_decide_unpack _). by vm_compute. }
  destruct (bloc_step_results "coal" da0 (mkDF [] []) (da1, res1))
    as (Hidx1 & Hcol1 & _ & Hloc1 & Hnan1 & _); [by left | done|].
  cbn [fst snd] in *.
  destruct (bloc_step_results "opp" da1 res1 (da, results))
    as (_ & _ & _ & Hloc2 & Hnan2 & Hother); [right; exact Hidx1 | exact H2|].
  pose proof (bloc_step_inv _ _ _ _ H1) as (E1 & _).
  pose proof (bloc_step_inv _ _ _ _ H2) as (E2 & _).
  cbn [fst snd] in *.
  split; [|split; [|split; [|split; [|split; [|split; [|split]]]]]].
  - intros p Hp. rewrite E1 in Hp.
    by apply (step_rows_reserves "coal_ratio" "coal_cut" "coal_reserves"
                "coal_votes_cumsum") with (rs := rows da0).
  - intros p Hp. rewrite E2 in Hp.
    by apply (step_rows_reserves "opp_ratio" "opp_cut" "opp_reserves"
                "opp_votes_cumsum") with (rs := rows da1).
  - exact (opp_step_keeps _ _ _ H2).
  - done.
  - rewrite Hother; done.
  - done.
  - intros Hnone l r' Hin.
    destruct (bloc_step_rows_other "opp" da1 res1 (da, results) l r' H2)
      as (r & Hr & Hsame); [|done|].
    { intros E. unfold index in Hidx1. by rewrite E in Hidx1. }
    rewrite Hsame by done. by eapply Hnan1.
  - done.
Qed.

(** C7: for each bloc, when some locality of the final analysis table is in
    the bin labelled 0.95, the result table's value at label 0.95 is 1. *)
Theorem reference_bin_normalised_to_one
    (ratio : Q) (data da : DataFrame string) (results : DataFrame Q)
    (party : string) :
  pipeline ratio data = Ok (da, results) ->
  party ∈ blocs ->
  (exists p, p ∈ rows da /\ in_group (party +:+ "_cut") 0.95 p) ->
  exists v, loc 0.95 party results = Ok (Some v) /\ v == 1.
Proof.
  intros H Hparty (p & Hp & Hin).
  apply pipeline_inv in H as (da0 & [da1 res1] & Ha & H1 & H2).
  destruct (two_turns da0 da1 res1 da results (analysis_days _ _ _ Ha) H1 H2)
    as (Hpos1 & Hpos2 & [Hback _] & _ & Hloc1 & Hloc2 & _).
  apply blocs_inv in Hparty as [-> | ->]; cbn [String.append] in Hin.
  - destruct (Hback p Hp) as (p1 & Hp1 & Hsame).
    assert (Hin1 : in_group "coal_cut" 0.95 p1)
      by (unfold in_group in *; by rewrite <- Hsame).
    destruct (group_max_positive "coal_cut" "coal_reserves" (rows da1) 0.95 p1
                Hpos1 Hp1 Hin1) as (m & Hm & Hm0).
    rewrite Hloc1, Hm. destruct (cdiv_self m Hm0) as (v & -> & Hv). eauto.
  - destruct (group_max_positive "opp_cut" "opp_reserves" (rows da) 0.95 p
                Hpos2 Hp Hin) as (m & Hm & Hm0).
    rewrite Hloc2, Hm. destruct (cdiv_self m Hm0) as (v & -> & Hv). eauto.
Qed.

Lemma reference_bin_normalised_to_one_witness :
  exists v, loc 0.95 "coal" localities_run.2 = Ok (Some v) /\ v == 1.
Proof.
  apply (reference_bin_normalised_to_one SAAR_RATIO_FROM_GANTZ localities
           localities_run.1 localities_run.2 "coal").
  - transitivity (Ok localities_run); [|by destruct localities_run].
    apply unwrap_Ok. vm_compute; reflexivity.
  - left.
  - apply Exists_exists, (bool_decide_unpack _). vm_compute. exact I.
Defined.

(** C5, as the code has it: once the analysis table exists the loop never
    fails.  For a bloc without a locality in the bin labelled 0.95 the
    divisor read at label 0.95 is NaN, and so is every value of the bloc's
    column in the result table. *)
Theorem empty_reference_bin_gives_nan
    (ratio : Q) (data da0 : DataFrame string) :
  analysis ratio data = Ok da0 ->
  exists da results,
    binning da0 = Ok (da, results) /\
    forall party, party ∈ blocs ->
      (forall p, p ∈ rows da -> ~ in_group (party +:+ "_cut") 0.95 p) ->
      loc 0.95 party results = Ok None /\
      forall l r, (l, r) ∈ rows results -> r !! party = None.
Proof.
  intros Ha.
  destruct (bloc_step_total "coal" da0 (mkDF [] [])) as [[da1 res1] H1];
    [eapply analysis_columns; [exact Ha | set_solver]..| by left|].
  pose proof (bloc_step_inv _ _ _ _ H1) as (_ & Hcols1 & _).
  destruct (bloc_step_results "coal" da0 (mkDF [] []) (da1, res1))
    as (Hidx1 & _); [by left | done|].
  cbn [fst snd] in *.
  destruct (bloc_step_total "opp" da1 res1) as [[da results] H2];
    [apply Hcols1; eapply analysis_columns; [exact Ha | set_solver]..
    |right; exact Hidx1|].
  exists da, results. split.
  { unfold binning. simpl. rewrite H1. simpl. exact H2. }
  destruct (two_turns da0 da1 res1 da results (analysis_days _ _ _ Ha) H1 H2)
    as (_ & _ & [_ Hforth] & _ & Hloc1 & Hloc2 & Hnan1 & Hnan2).
  intros party Hparty Hnone.
  apply blocs_inv in Hparty as [-> | ->]; cbn [String.append] in Hnone.
  - assert (E : group_max "coal_cut" "coal_reserves" (rows da1) 0.95 = None).
    { apply group_max_empty. intros p1 Hp1 Hin1.
      destruct (Hforth p1 Hp1) as (p & Hp & Hsame).
      apply (Hnone p Hp). change (in_group "coal_cut" 0.95 p).
      unfold in_group in *. by rewrite Hsame. }
    rewrite Hloc1, E. split; [done | by apply Hnan1].
  - assert (E : group_max "opp_cut" "opp_reserves" (rows da) 0.95 = None)
      by by apply group_max_empty.
    rewrite Hloc2, E. split; [done | by apply Hnan2].
Qed.

Lemma empty_reference_bin_gives_nan_witness :
  exists da results,
    binning two_localities_analysis = Ok (da, results) /\
    forall party, party ∈ blocs ->
      (forall p, p ∈ rows da -> ~ in_group (party +:+ "_cut") 0.95 p) ->
      loc 0.95 party results = Ok None /\
      forall l r, (l, r) ∈ rows results -> r !! party = None.
Proof.
  apply (empty_reference_bin_gives_nan SAAR_RATIO_FROM_GANTZ two_localities).
  apply unwrap_Ok. vm_compute; reflexivity.
Defined.

(** C5 as stated fails: on the two localities no one is in the coalition's
    bin labelled 0.95, and the run ends without an error, with NaN read at
    label 0.95 of the coalition column. *)
Lemma empty_reference_bin_no_error :
  main_script two_localities = Ok two_localities_run /\
  Forall (fun p => ~ in_group "coal_cut" 0.95 p) (rows two_localities_run.1) /\
  loc 0.95 "coal" two_localities_run.2 = Ok None /\
  Forall (fun p => p.2 !! "coal"%string = None) (rows two_localities_run.2).
Proof.
  split; [apply unwrap_Ok; vm_compute; reflexivity|].
  split; [apply (bool_decide_unpack _); vm_compute; exact I|].
  split; [vm_compute; reflexivity|].
  apply (bool_decide_unpack _); vm_compute; exact I.
Qed.
